(** * vosk_ws: the streaming recognition session of [src/vosk_ws.py]

    A shallow embedding of the per-connection message loop
    ([main_message_loop]), of the per-frame step ([process_audio_chunk]),
    of the end-of-stream flush ([handle_end_of_stream]) and of the frame
    validation ([validate_message]).

    The Vosk recognizer, the websocket and the [json] module are external
    collaborators of the file: they appear here as interfaces (type
    classes) whose operations may change the collaborator's state and may
    raise.  The coroutines are sequential per connection, so [await] is
    read as an ordinary call.

    The file logs with [print]. Standard output is taken to be open and
    writable; a [print] then raises [UnicodeEncodeError] when the encoding
    of [sys.stdout] cannot encode the text, and several prints stand
    between a value and its use, so they are part of the control flow:
    the prints that format a value of the recognizer, the connection path
    or a caught exception are modelled ([print_value], [print_exn]). The
    other prints format program text, the type of a message or the peer's
    address (a host and port pair, first printed on line 31 before the
    loop starts), all ASCII, which every encoding can encode
    ([encodable_ascii]); they cannot raise and are left out.
    [traceback.print_exc] writes to [sys.stderr], which escapes what it
    cannot encode. *)

From Stdlib Require Import Floats.
From Stdlib Require Import Ascii.
From stdpp Require Import base option list strings gmap.

(** ** Python values *)

(** The values [json.loads] can produce, and [None]. A [dict] is a finite
    map with string keys. *)
#[local] Unset Elimination Schemes.
Inductive pyval : Type :=
| PNone
| PBool (b : bool)
| PInt (z : Z)
| PFloat (x : float)
| PStr (s : string)
| PList (l : list pyval)
| PDict (d : gmap string pyval).
#[local] Set Elimination Schemes.

(** Python's truth value testing, as used by [if final:], [elif partial:],
    [if result_text:] and [if partial_text:]. *)
Definition truthy (v : pyval) : bool :=
  match v with
  | PNone => false
  | PBool b => b
  | PInt z => negb (z =? 0)%Z
  | PFloat x => negb (PrimFloat.eqb x 0%float)
  | PStr s => negb (String.eqb s "")
  | PList l => negb (bool_decide (l = []))
  | PDict d => negb (bool_decide (d = ∅))
  end.

(** [d.get(key, default)] on a dict. *)
Definition dict_get (d : gmap string pyval) (key : string) (default : pyval) : pyval :=
  match d !! key with
  | Some v => v
  | None => default
  end.

(** The single-key dict literal [{"text": v}] built before each send. *)
Definition text_event (v : pyval) : pyval := PDict {[ "text" := v ]}.

(** ** Exceptions and results *)

(** What a call can raise. The handlers are [except Exception], so what
    matters about a raised object is whether it is an instance of
    [Exception] or only of [BaseException] (a cancellation, a keyboard
    interrupt), and, as the handlers print it, its text: the string stands
    for the text that [{e}] formats. *)
Inductive exn : Type :=
| PyException (name : string)
| PyBaseException (name : string).

Definition isinstance_Exception (e : exn) : bool :=
  match e with
  | PyException _ => true
  | PyBaseException _ => false
  end.

(** [str(e)], the text that [print(f"...{e}")] writes. *)
Definition exn_text (e : exn) : string :=
  match e with
  | PyException text => text
  | PyBaseException text => text
  end.

Inductive result (A : Type) : Type :=
| Ok (a : A)
| Raise (e : exn).
Arguments Ok {A} a.
Arguments Raise {A} e.

(** ** Standard output *)

(** A text made of ASCII characters only. *)
Definition is_ascii_text (s : string) : bool :=
  forallb (λ c, Nat.ltb (nat_of_ascii c) 128) (String.list_ascii_of_string s).

(** [sys.stdout] as [print] sees it: [encodable s] tells whether its
    encoding can encode the text [s], and [can_print v] whether it can
    encode [str(v)], the text that [{v}] formats; for a [str] that is the
    string itself. Every encoding can encode ASCII. *)
Class Stdout := {
  encodable : string → bool;
  can_print : pyval → bool;
  encodable_ascii : ∀ s, is_ascii_text s = true → encodable s = true;
  can_print_str : ∀ s, can_print (PStr s) = encodable s
}.

(** Whether [print(f"...{e}")] can write the exception. *)
Definition can_print_exn `{!Stdout} (e : exn) : bool := encodable (exn_text e).

(** What [print] raises for a text it cannot encode. *)
Definition UnicodeEncodeError : exn := PyException "UnicodeEncodeError".

(** [print(f"...{v}")] as a step that returns or raises. *)
Definition print_result `{!Stdout} (v : pyval) : result () :=
  if can_print v then Ok () else Raise UnicodeEncodeError.

(** [print(f"...{e}")] for a caught exception. *)
Definition print_exn_result `{!Stdout} (e : exn) : result () :=
  if can_print_exn e then Ok () else Raise UnicodeEncodeError.

(** ** Inbound messages *)

(** A websocket message is a [str] (text frame) or a [bytes] (binary
    frame). *)
Inductive message : Type :=
| Text (s : string)
| Binary (b : list Byte.byte).

(** ** The collaborators *)

(** [KaldiRecognizer]: a stateful decoder. [AcceptWaveform] is given the
    message as the caller passes it and reports whether a complete phrase
    was recognised; [Result] and [PartialResult] return a JSON text. *)
Class KaldiRecognizer (Rec : Type) := {
  AcceptWaveform : Rec → message → Rec * result bool;
  Result : Rec → Rec * result string;
  PartialResult : Rec → Rec * result string
}.

(** The connection: [send] takes the serialised text and may raise (a
    closed connection, a cancellation). *)
Class WebSocket (WS : Type) := {
  send : WS → string → WS * result ()
}.

(** The [json] module. The errors of [json.loads] ([JSONDecodeError] and
    the like) have messages made of fixed ASCII text and positions. *)
Class Json := {
  json_loads : string → result pyval;
  json_dumps : pyval → string;
  json_loads_error_ascii :
    ∀ doc e, json_loads doc = Raise e → is_ascii_text (exn_text e) = true
}.

(** [len(message)] for either kind of message. *)
Definition len (m : message) : nat :=
  match m with
  | Text s => String.length s
  | Binary b => length b
  end.

(** [v.get(key, default)]: only a dict has the method. *)
Definition py_get (v : pyval) (key : string) (default : pyval) : result pyval :=
  match v with
  | PDict d => Ok (dict_get d key default)
  | _ => Raise (PyException "AttributeError")
  end.

(** [validate_message]: the message must be [bytes]. *)
Definition validate_message (m : message) : bool :=
  match m with
  | Binary _ => true
  | Text _ => false
  end.

(** ** The connection's world and the monad of its coroutines *)

Section Connection.
Context {Rec WS : Type} `{!KaldiRecognizer Rec} `{!WebSocket WS} `{!Json}
  `{!Stdout}.

(** One connection: its recognizer, its websocket, and two observation
    logs that the code does not have: the texts passed to
    [websocket.send] and the messages passed to [rec.AcceptWaveform], in
    call order. A call is logged whether or not it raises. *)
Record World : Type := mkWorld {
  w_rec : Rec;
  w_websocket : WS;
  w_sent : list string;
  w_fed : list message
}.

(** A coroutine body: it updates the world and returns or raises. *)
Definition M (A : Type) : Type := World → World * result A.

#[local] Instance M_ret : MRet M := λ A a w, (w, Ok a).

#[local] Instance M_bind : MBind M := λ A B k c w,
  match c w with
  | (w', Ok a) => k a w'
  | (w', Raise e) => (w', Raise e)
  end.

(** A pure step that may raise ([json.loads], [.get]). *)
Definition lift {A : Type} (r : result A) : M A := λ w, (w, r).

(** [try: body / except Exception as e: handler]. An object that is not
    an [Exception] instance passes through. *)
Definition try_except {A : Type} (body : M A) (handler : exn → M A) : M A :=
  λ w,
    match body w with
    | (w', Ok a) => (w', Ok a)
    | (w', Raise e) =>
        if isinstance_Exception e then handler e w' else (w', Raise e)
    end.

(** [await websocket.send(text)]. *)
Definition websocket_send (text : string) : M () := λ w,
  let '(ws, r) := send (w_websocket w) text in
  (mkWorld (w_rec w) ws (w_sent w ++ [text]) (w_fed w), r).

(** [rec.AcceptWaveform(message)]. *)
Definition rec_AcceptWaveform (m : message) : M bool := λ w,
  let '(r, b) := AcceptWaveform (w_rec w) m in
  (mkWorld r (w_websocket w) (w_sent w) (w_fed w ++ [m]), b).

(** [rec.Result()]. *)
Definition rec_Result : M string := λ w,
  let '(r, s) := Result (w_rec w) in
  (mkWorld r (w_websocket w) (w_sent w) (w_fed w), s).

(** [rec.PartialResult()]. *)
Definition rec_PartialResult : M string := λ w,
  let '(r, s) := PartialResult (w_rec w) in
  (mkWorld r (w_websocket w) (w_sent w) (w_fed w), s).

(** [print(f"...{v}")] and [print(f"...{e}")] in a coroutine. *)
Definition print_value (v : pyval) : M () := lift (print_result v).
Definition print_exn (e : exn) : M () := lift (print_exn_result e).

(** ** The code *)

(** [handle_end_of_stream(websocket, rec, partial, final)]. Its prints of
    [final] (line 74) and of [partial] (line 79) come before the send; for
    the values the loop holds they repeat a print that has returned, on
    line 119 or 129, and cannot raise ([flush_prints_in_the_loop], for
    [handle_end_of_stream_with_prints] below), so they are left out
    here. *)
Definition handle_end_of_stream (partial final : pyval) : M () :=
  if truthy final then
    websocket_send (json_dumps (text_event final))
  else if truthy partial then
    websocket_send (json_dumps (text_event partial))
  else
    websocket_send (json_dumps (text_event (PStr ""))).

(** [handle_end_of_stream] with the prints of lines 74 and 79 written
    out. *)
Definition handle_end_of_stream_with_prints (partial final : pyval) : M () :=
  if truthy final then
    _ ← print_value final;
    websocket_send (json_dumps (text_event final))
  else if truthy partial then
    _ ← print_value partial;
    websocket_send (json_dumps (text_event partial))
  else
    websocket_send (json_dumps (text_event (PStr ""))).

(** [process_audio_chunk(websocket, rec, message, partial, final)]; the
    result is the pair [(partial, final)] it returns. The text of a
    boundary is printed (line 119) before it is stored (line 120); the
    interim text is stored in the function's own [partial] (line 128) and
    printed (line 129) before the function returns. *)
Definition process_audio_chunk (m : message) (partial final : pyval)
  : M (pyval * pyval) :=
  if Nat.eqb (len m) 0 then
    _ ← handle_end_of_stream partial final;
    mret (PNone, PNone)
  else
    boundary ← rec_AcceptWaveform m;
    if (boundary : bool) then
      result ← rec_Result;
      result_json ← lift (json_loads result);
      result_text ← lift (py_get result_json "text" (PStr ""));
      if truthy result_text then
        _ ← print_value result_text;
        mret (partial, result_text)
      else
        mret (partial, final)
    else
      partial_result ← rec_PartialResult;
      partial_json ← lift (json_loads partial_result);
      partial_text ← lift (py_get partial_json "partial" (PStr ""));
      if truthy partial_text then
        _ ← print_value partial_text;
        mret (partial_text, final)
      else
        mret (partial, final).

(** One iteration of the [async for] of [main_message_loop]:
    [try_block] is the body of the [try], where [continue] leaves the
    locals as they are (the print of line 159 writes the peer's address);
    the handler prints the exception (line 162), which can raise in its
    turn, and goes on with the locals as they were. The result of
    [loop_body] is the value of the locals [(partial, final)] after the
    iteration. *)
Definition try_block (m : message) (partial final : pyval)
  : M (pyval * pyval) :=
  if negb (validate_message m) then mret (partial, final)
  else process_audio_chunk m partial final.

Definition loop_body (m : message) (partial final : pyval)
  : M (pyval * pyval) :=
  try_except (try_block m partial final)
    (λ e, _ ← print_exn e; mret (partial, final)).

(** The loop from given values of the locals, over the messages the
    connection delivers. *)
Fixpoint message_loop (msgs : list message) (partial final : pyval)
  : M (pyval * pyval) :=
  match msgs with
  | [] => mret (partial, final)
  | m :: rest =>
      '(partial', final') ← loop_body m partial final;
      message_loop rest partial' final'
  end.

(** [main_message_loop(websocket, rec)]: both locals start as [None].
    The Python function returns nothing; the locals at loop exit are
    returned here so that they can be observed. *)
Definition main_message_loop (msgs : list message) : M (pyval * pyval) :=
  message_loop msgs PNone PNone.

End Connection.

Arguments World : clear implicits.
Arguments mkWorld {Rec WS} _ _ _ _.

(** The value that [handle_end_of_stream] puts under the key [text]: its
    three branches send the same dict with this value. *)
Definition flushed (partial final : pyval) : pyval :=
  if truthy final then final
  else if truthy partial then partial
  else PStr "".

(** ** The flush rule in the specification's words *)

(** A tracked value is set when it is not [None]. *)
Definition is_set (v : pyval) : bool :=
  match v with
  | PNone => false
  | _ => true
  end.

(** The specification's resolution of the outbound text: [lastFinal] if
    set, else [lastPartial] if set, else the empty string. The code tests
    truth values instead ([handle_end_of_stream]); the two are compared in
    [flush_fallback_ordering]. *)
Definition resolved_text (lastPartial lastFinal : pyval) : pyval :=
  if is_set lastFinal then lastFinal
  else if is_set lastPartial then lastPartial
  else PStr "".

(** A value the loop can hold in [partial] or [final]: [None], or
    something that passed an [if x:] test. *)
Definition tracked (v : pyval) : Prop := v = PNone ∨ truthy v = true.

(** The engine's side of the interface: in the documents it returns, the
    value under the given key, when present, is a string. *)
Definition string_valued `{!Json} (key doc : string) : Prop :=
  ∀ d v, json_loads doc = Ok (PDict d) → d !! key = Some v → ∃ t, v = PStr t.

Definition recognizer_contract {Rec : Type} `{!KaldiRecognizer Rec} `{!Json} : Prop :=
  (∀ r r' doc, Result r = (r', Ok doc) → string_valued "text" doc) ∧
  (∀ r r' doc, PartialResult r = (r', Ok doc) → string_valued "partial" doc).

(** The wire format: the serialisation of an object whose only key is
    [text] and whose value there is a string. *)
Definition wire_event `{!Json} (sent_text : string) : Prop :=
  ∃ (d : gmap string pyval) (t : string),
    sent_text = json_dumps (PDict d) ∧ dom d = {[ "text" ]} ∧ d !! "text" = Some (PStr t).

(** A local that holds [None] or a string. *)
Definition none_or_str (v : pyval) : Prop := v = PNone ∨ ∃ t, v = PStr t.

(** ** The connection handler *)

(** The loaded [Model] and the constructor [KaldiRecognizer(model, rate)],
    which may raise. The model is only read. *)
Class VoskModel (Model Rec : Type) := {
  KaldiRecognizer_new : Model → Z → result Rec
}.

Section Handler.
Context {Model Rec WS : Type} `{!VoskModel Model Rec}
  `{!KaldiRecognizer Rec} `{!WebSocket WS} `{!Json} `{!Stdout}.

(** [initialize_connection(websocket, path)]: it prints [path] when one
    is given (line 33), then builds a recognizer for the module's [model]
    at 16000 Hz and returns it. *)
Definition initialize_connection (model : Model) (path : pyval) : result Rec :=
  match (if truthy path then print_result path else Ok ()) with
  | Ok _ => KaldiRecognizer_new model 16000
  | Raise e => Raise e
  end.

(** [main_message_loop] together with the way its [async for] ends: the
    iteration over the websocket stops when the connection is closed
    normally and raises when it is closed abnormally; [closed] is that
    outcome. *)
Definition main_message_loop_until_close (msgs : list message)
    (closed : result ()) : M () :=
  λ w,
    match main_message_loop msgs w with
    | (w', Ok _) => (w', closed)
    | (w', Raise e) => (w', Raise e)
    end.

(** What [except Exception as e: print(f"...{e}")] makes of an outcome:
    an [Exception] is printed (line 186) and dropped when the print
    returns, and replaced by the print's own error when it does not;
    anything else passes. *)
Definition log_and_drop (r : result ()) : result () :=
  match r with
  | Ok _ => Ok ()
  | Raise e => if isinstance_Exception e then print_exn_result e else Raise e
  end.

(** [recognize(websocket, path)]: the recognizer is built and the loop is
    run inside one [try], whose handler prints the exception; [finally]
    prints the peer's address. The result carries the connection's world
    when a recognizer was built, with both logs starting empty. *)
Definition recognize (model : Model) (websocket : WS) (path : pyval)
    (msgs : list message) (closed : result ())
    : option (World Rec WS) * result () :=
  match initialize_connection model path with
  | Ok rec =>
      match main_message_loop_until_close msgs closed
              (mkWorld rec websocket [] []) with
      | (w, r) => (Some w, log_and_drop r)
      end
  | Raise e => (None, log_and_drop (Raise e))
  end.

End Handler.

(** ** Kinds of inbound messages, by the tests the code makes *)

(** The end-of-stream signal: a message that passes [validate_message]
    and has length 0. *)
Definition is_eos (m : message) : bool :=
  validate_message m && Nat.eqb (len m) 0.

(** An audio chunk: a message that passes [validate_message] and has a
    length other than 0. *)
Definition is_audio (m : message) : bool :=
  validate_message m && negb (Nat.eqb (len m) 0).

(** A local as far as printing goes: [None], or a value whose print
    returns. *)
Definition printed `{!Stdout} (v : pyval) : Prop := v = PNone ∨ can_print v = true.

(** A text that carries a value that is true in Python's sense, or the
    empty string. *)
Definition text_event_of_true_or_empty `{!Json} (sent_text : string) : Prop :=
  ∃ v, sent_text = json_dumps (text_event v) ∧ (v = PStr "" ∨ truthy v = true).

(** ** A scripted recognizer, a counting websocket and a toy codec

    Stand-ins for the three collaborators, used to run the code on
    concrete connections. *)
Module Mock.

(** What the script says about one audio chunk: the answer of
    [AcceptWaveform] and the document the engine then holds. *)
Record chunk_script : Type := mkChunk {
  cs_boundary : result bool;
  cs_document : result string
}.

(** The recognizer's state: the document it currently holds and the
    script for the chunks to come. *)
Record rec_state : Type := mkRec {
  rs_document : result string;
  rs_script : list chunk_script
}.

#[export] Instance scripted : KaldiRecognizer rec_state := {
  AcceptWaveform r _ :=
    match rs_script r with
    | [] => (r, Raise (PyException "Exception"))
    | c :: rest => (mkRec (cs_document c) rest, cs_boundary c)
    end;
  Result r := (r, rs_document r);
  PartialResult r := (r, rs_document r)
}.

(** The websocket's state: how many more sends succeed before the
    connection is closed. *)
#[export] Instance counting : WebSocket nat := {
  send n _ :=
    match n with
    | 0 => (0, Raise (PyException "ConnectionClosed"))
    | S k => (k, Ok ())
    end
}.

(** The documents of the toy codec: [T=xyz] stands for the object with
    the one key [text] and the string [xyz], [P=xyz] likewise for the
    key [partial]; anything else does not parse. *)
Definition loads (doc : string) : result pyval :=
  match doc with
  | String "T"%char (String "="%char t) => Ok (PDict {[ "text" := PStr t ]})
  | String "P"%char (String "="%char t) => Ok (PDict {[ "partial" := PStr t ]})
  | _ => Raise (PyException "JSONDecodeError")
  end.

Definition dumps (v : pyval) : string :=
  match v with
  | PDict d =>
      match d !! "text" with
      | Some (PStr t) => "T=" +:+ t
      | _ => "?"
      end
  | _ => "?"
  end.

Lemma loads_error_ascii (doc : string) (e : exn) :
  loads doc = Raise e → is_ascii_text (exn_text e) = true.
Proof.
  unfold loads. intros Hloads.
  repeat (case_match; simplify_eq/=); done.
Qed.

#[export] Instance toy : Json := {
  json_loads := loads;
  json_dumps := dumps;
  json_loads_error_ascii := loads_error_ascii
}.

(** A standard output whose encoding is ASCII: it can print a [str] made
    of ASCII characters, and every value that is not a [str]. *)
#[export] Instance ascii_stdout : Stdout := {
  encodable := is_ascii_text;
  can_print v := match v with PStr s => is_ascii_text s | _ => true end;
  encodable_ascii := λ s Hs, Hs;
  can_print_str := λ s, eq_refl
}.

Definition interim (t : string) : chunk_script :=
  mkChunk (Ok false) (Ok ("P=" +:+ t)).
Definition settled (t : string) : chunk_script :=
  mkChunk (Ok true) (Ok ("T=" +:+ t)).
Definition failing : chunk_script :=
  mkChunk (Raise (PyException "Exception")) (Ok "P=").

(** A fresh connection whose recognizer follows [script] and whose
    websocket accepts [n] sends. *)
Definition connect (script : list chunk_script) (n : nat) : World rec_state nat :=
  mkWorld (mkRec (Ok "T=") script) n [] [].

Definition audio : message := Binary [Byte.x01; Byte.x02].
Definition eos : message := Binary [].

End Mock.

(** A model whose recognizers follow a script, and chunks and websockets
    that are cancelled. *)
Module MockServer.
Import Mock.

(** A model is the script its recognizers will follow, or nothing when
    no recognizer can be built from it. *)
#[export] Instance scripted_model
  : VoskModel (option (list chunk_script)) rec_state := {
  KaldiRecognizer_new model rate :=
    match model with
    | Some script => Ok (mkRec (Ok "T=") script)
    | None => Raise (PyException "Exception")
    end
}.

Definition cancelled : chunk_script :=
  mkChunk (Raise (PyBaseException "CancelledError")) (Ok "P=").

(** A boundary whose document the codec cannot parse. *)
Definition garbled : chunk_script := mkChunk (Ok true) (Ok "[]").

(** A text no standard output can encode: the lone surrogate U+D800, as
    the three bytes 237, 160, 128. *)
Definition surrogate : string :=
  String (ascii_of_nat 237) (String (ascii_of_nat 160)
    (String (ascii_of_nat 128) EmptyString)).

(** A chunk on which the recognizer raises an [Exception] whose text is
    [surrogate]. *)
Definition failing_unprintable : chunk_script :=
  mkChunk (Raise (PyException surrogate)) (Ok "P=").

End MockServer.

(** ** The scenarios of the specification, run on the code *)

Section Scenarios.
Import Mock.

Example scenario_final_wins :
  w_sent (main_message_loop [audio; audio; eos]
            (connect [interim "hello"; settled "hello world"] 1)).1
  = ["T=hello world"].
Proof. vm_compute. reflexivity. Qed.

Example scenario_partial_fallback :
  w_sent (main_message_loop [audio; eos] (connect [interim "hel"] 1)).1
  = ["T=hel"].
Proof. vm_compute. reflexivity. Qed.

Example scenario_empty :
  w_sent (main_message_loop [eos] (connect [] 1)).1 = ["T="].
Proof. vm_compute. reflexivity. Qed.

End Scenarios.

(** ** Properties *)

Section Properties.
Context {Rec WS : Type} `{!KaldiRecognizer Rec} `{!WebSocket WS} `{!Json}
  `{!Stdout}.
Implicit Types (m : message) (partial final : pyval) (w : World Rec WS).

(** Unfolds the monad and the calls of one step. *)
Ltac unfold_step :=
  unfold loop_body, try_block, try_except, process_audio_chunk,
    handle_end_of_stream, websocket_send, rec_AcceptWaveform, rec_Result,
    rec_PartialResult, print_value, print_exn, print_result,
    print_exn_result, lift, mbind, M_bind, mret, M_ret in *;
  simpl in *.

Lemma handle_end_of_stream_send partial final w :
  handle_end_of_stream partial final w
  = websocket_send (json_dumps (text_event (flushed partial final))) w.
Proof. unfold handle_end_of_stream, flushed. by repeat case_match. Qed.

Lemma websocket_send_sent text w :
  w_sent (websocket_send text w).1 = w_sent w ++ [text].
Proof. unfold websocket_send. by case_match. Qed.

Lemma flushed_resolved partial final :
  tracked partial → tracked final →
  flushed partial final = resolved_text partial final.
Proof.
  unfold flushed, resolved_text.
  intros [-> | Hp] [-> | Hf]; simpl; rewrite ?Hp, ?Hf; try done.
  - by destruct final.
  - by destruct partial.
  - by destruct final.
Qed.

(** Off the values the loop can hold, the two resolutions differ: an
    empty string is set but not true. The loop never stores one
    ([message_loop_tracked]). *)
Example flushed_off_tracked :
  flushed (PStr "x") (PStr "") = PStr "x"
  ∧ resolved_text (PStr "x") (PStr "") = PStr "".
Proof. done. Qed.

(** *** What the loop keeps in its locals *)

Lemma tracked_None : tracked PNone.
Proof. by left. Qed.

Lemma process_audio_chunk_tracked m partial final w w' partial' final' :
  tracked partial → tracked final →
  process_audio_chunk m partial final w = (w', Ok (partial', final')) →
  tracked partial' ∧ tracked final'.
Proof.
  intros Hp Hf Hrun. unfold_step.
  repeat (case_match; simplify_eq/=);
    split; first [done | apply tracked_None | by right].
Qed.

(** What an iteration makes of the outcome of its [try] body. *)
Lemma loop_body_outcome m partial final w :
  loop_body m partial final w =
    match try_block m partial final w with
    | (w', Ok locals) => (w', Ok locals)
    | (w', Raise e) =>
        (w', if isinstance_Exception e
             then (if can_print_exn e then Ok (partial, final)
                   else Raise UnicodeEncodeError)
             else Raise e)
    end.
Proof.
  unfold loop_body, try_except.
  destruct (try_block m partial final w) as [w1 [locals | e]]; [done|].
  destruct (isinstance_Exception e); [|done].
  unfold mbind, M_bind, print_exn, lift, print_exn_result, mret, M_ret.
  by destruct (can_print_exn e).
Qed.

(** When an iteration returns, either its [try] body returned the same
    locals, or the locals are those it started with. *)
Lemma loop_body_returns m partial final w w' partial' final' :
  loop_body m partial final w = (w', Ok (partial', final')) →
  try_block m partial final w = (w', Ok (partial', final'))
  ∨ (partial' = partial ∧ final' = final).
Proof.
  rewrite loop_body_outcome.
  destruct (try_block m partial final w) as [w1 [locals | e]]; [by left|].
  intros Hrun. right.
  destruct (isinstance_Exception e), (can_print_exn e); by simplify_eq.
Qed.

Lemma loop_body_tracked m partial final w w' partial' final' :
  tracked partial → tracked final →
  loop_body m partial final w = (w', Ok (partial', final')) →
  tracked partial' ∧ tracked final'.
Proof.
  intros Hp Hf Hrun.
  destruct (loop_body_returns _ _ _ _ _ _ _ Hrun) as [Htry | [-> ->]]; [|done].
  unfold try_block in Htry.
  destruct (negb (validate_message m)).
  - unfold mret, M_ret in Htry. by simplify_eq.
  - eauto using process_audio_chunk_tracked.
Qed.

Lemma message_loop_tracked msgs : ∀ partial final w w' partial' final',
  tracked partial → tracked final →
  message_loop msgs partial final w = (w', Ok (partial', final')) →
  tracked partial' ∧ tracked final'.
Proof.
  induction msgs as [| m rest IH]; intros partial final w w' partial' final' Hp Hf Hrun.
  - simpl in Hrun. unfold mret, M_ret in Hrun. by simplify_eq.
  - simpl in Hrun. unfold mbind, M_bind in Hrun.
    destruct (loop_body m partial final w) as [w1 [[p1 f1] | e]] eqn:Hbody; [|done].
    destruct (loop_body_tracked _ _ _ _ _ _ _ Hp Hf Hbody) as [Hp1 Hf1].
    eauto.
Qed.

(** *** The handler *)

(** An iteration hands on only what [except Exception] does not catch,
    or the error of the handler's own print. *)
Lemma loop_body_raise m partial final w w' e :
  loop_body m partial final w = (w', Raise e) →
  isinstance_Exception e = false ∨ e = UnicodeEncodeError.
Proof.
  rewrite loop_body_outcome. intros Hrun.
  destruct (try_block m partial final w) as [w1 [a | e1]]; [done|].
  destruct (isinstance_Exception e1) eqn:He1, (can_print_exn e1);
    simplify_eq; auto.
Qed.

(** An iteration that returns steps the loop to the next message. *)
Lemma message_loop_step m rest partial final w w' partial' final' :
  loop_body m partial final w = (w', Ok (partial', final')) →
  message_loop (m :: rest) partial final w = message_loop rest partial' final' w'.
Proof. intros Hbody. simpl. unfold mbind, M_bind. by rewrite Hbody. Qed.

(** The loop ends early only on what [except Exception] does not catch,
    or on the error of the handler's own print. *)
Lemma message_loop_raise msgs : ∀ partial final w w' e,
  message_loop msgs partial final w = (w', Raise e) →
  isinstance_Exception e = false ∨ e = UnicodeEncodeError.
Proof.
  induction msgs as [| m rest IH]; intros partial final w w' e Hrun.
  - done.
  - simpl in Hrun. unfold mbind, M_bind in Hrun.
    destruct (loop_body m partial final w) as [w1 [[p1 f1] | e1]] eqn:Hbody.
    + eauto.
    + simplify_eq. eauto using loop_body_raise.
Qed.

(** *** What one step sends *)

Lemma process_audio_chunk_sent m partial final w :
  w_sent (process_audio_chunk m partial final w).1 =
    if Nat.eqb (len m) 0
    then w_sent w ++ [json_dumps (text_event (flushed partial final))]
    else w_sent w.
Proof.
  unfold process_audio_chunk. destruct (Nat.eqb (len m) 0).
  - unfold mbind, M_bind. rewrite handle_end_of_stream_send.
    rewrite <- (websocket_send_sent _ w).
    by destruct (websocket_send _ w) as [w1 [[] | e]].
  - unfold_step. repeat (case_match; simplify_eq/=; try done).
Qed.

Lemma loop_body_sent m partial final w :
  w_sent (loop_body m partial final w).1 =
    match m with
    | Binary [] => w_sent w ++ [json_dumps (text_event (flushed partial final))]
    | _ => w_sent w
    end.
Proof.
  rewrite loop_body_outcome. unfold try_block.
  destruct m as [s | b]; simpl; [done|].
  pose proof (process_audio_chunk_sent (Binary b) partial final w) as Hsent.
  destruct (process_audio_chunk (Binary b) partial final w) as [w1 [a | e]];
    simpl in *; by destruct b.
Qed.

(** C1. For the locals [(partial, final)] that the loop holds after any
    sequence of prior messages (flushes among them or not), processing
    the zero-length frame calls [send] exactly once, with the
    serialisation of [{"text": t}] where [t] is [final] if it is set,
    else [partial] if it is set, else the empty string; the recognizer
    is left alone. *)
Theorem flush_fallback_ordering (prior : list message) w w' partial final :
  main_message_loop prior w = (w', Ok (partial, final)) →
  w_sent (process_audio_chunk (Binary []) partial final w').1
    = w_sent w' ++ [json_dumps (text_event (resolved_text partial final))]
  ∧ w_fed (process_audio_chunk (Binary []) partial final w').1 = w_fed w'
  ∧ w_rec (process_audio_chunk (Binary []) partial final w').1 = w_rec w'.
Proof.
  intros Hloop.
  destruct (message_loop_tracked _ _ _ _ _ _ _ tracked_None tracked_None Hloop)
    as [Hp Hf].
  rewrite process_audio_chunk_sent. simpl.
  rewrite (flushed_resolved _ _ Hp Hf). split; [done|].
  unfold_step. repeat (case_match; simplify_eq/=; try done).
Qed.

(** C2. When the step on a zero-length frame returns, it returns
    [(None, None)], and a second zero-length frame right after it sends
    the serialisation of [{"text": ""}]. *)
Theorem reset_after_flush partial final w w1 partial1 final1 :
  process_audio_chunk (Binary []) partial final w = (w1, Ok (partial1, final1)) →
  partial1 = PNone ∧ final1 = PNone ∧
  w_sent (process_audio_chunk (Binary []) partial1 final1 w1).1
    = w_sent w1 ++ [json_dumps (text_event (PStr ""))].
Proof.
  intros Hflush.
  assert (partial1 = PNone ∧ final1 = PNone) as [-> ->].
  { unfold process_audio_chunk, mbind, M_bind, mret, M_ret in Hflush.
    simpl in Hflush.
    destruct (handle_end_of_stream partial final w) as [w2 [[] | e]];
      by simplify_eq. }
  by rewrite process_audio_chunk_sent.
Qed.

(** C3. A non-empty audio frame sends nothing, whatever the recognizer
    does with it; the zero-length frame sends exactly one text; and at
    the level of the loop a message other than the zero-length frame
    never causes a send. *)
Theorem sends_only_on_end_of_stream (b : list Byte.byte) partial final w :
  w_sent (process_audio_chunk (Binary b) partial final w).1 =
    match b with
    | [] => w_sent w ++ [json_dumps (text_event (flushed partial final))]
    | _ :: _ => w_sent w
    end
  ∧ ∀ m, w_sent (loop_body m partial final w).1 =
      match m with
      | Binary [] => w_sent w ++ [json_dumps (text_event (flushed partial final))]
      | _ => w_sent w
      end.
Proof.
  split.
  - rewrite process_audio_chunk_sent. by destruct b.
  - intros m. apply loop_body_sent.
Qed.

(** C5. A message that is not [bytes] is skipped: the iteration leaves
    the whole world as it was (nothing sent, recognizer not called, not
    changed), the locals keep their values, and the loop goes on with
    the rest of the messages. *)
Theorem non_bytes_discarded (s : string) (rest : list message) partial final w :
  loop_body (Text s) partial final w = (w, Ok (partial, final))
  ∧ message_loop (Text s :: rest) partial final w
    = message_loop rest partial final w.
Proof.
  assert (loop_body (Text s) partial final w = (w, Ok (partial, final))) as Hbody
    by done.
  split; [done|]. by apply message_loop_step.
Qed.

(** C10. An empty text message does not flush: the iteration leaves the
    world and the locals as they were. Over all messages, a send happens
    only for the zero-length [bytes]. It is the validation that stops the
    empty text: handed to [process_audio_chunk] it would be flushed. *)
Theorem only_empty_bytes_flush partial final w :
  loop_body (Text "") partial final w = (w, Ok (partial, final))
  ∧ (∀ m, w_sent (loop_body m partial final w).1 ≠ w_sent w → m = Binary [])
  ∧ w_sent (process_audio_chunk (Text "") partial final w).1
    = w_sent w ++ [json_dumps (text_event (flushed partial final))].
Proof.
  split; [done|]. split.
  - intros m Hsent. rewrite loop_body_sent in Hsent.
    by destruct m as [s | [| x b]].
  - by rewrite process_audio_chunk_sent.
Qed.

(** *** Errors inside one iteration *)

(** A recognizer that fails on an audio frame makes the [try] body
    raise. *)
Lemma recognizer_failure_raises (b : list Byte.byte) partial final w r e :
  b ≠ [] →
  AcceptWaveform (w_rec w) (Binary b) = (r, Raise e) →
  try_block (Binary b) partial final w
  = (mkWorld r (w_websocket w) (w_sent w) (w_fed w ++ [Binary b]), Raise e).
Proof.
  intros Hb Hfeed. destruct b as [| x b]; [done|].
  unfold_step. by rewrite Hfeed.
Qed.

Lemma can_print_UnicodeEncodeError : can_print_exn UnicodeEncodeError = true.
Proof. by apply encodable_ascii. Qed.

(** C4, where the code departs from it. If the body of the [try] raises
    an [Exception] whose text the standard output cannot encode, the
    handler's own print (line 162) raises: the iteration ends with
    [UnicodeEncodeError] instead of going on, and so does the loop, the
    remaining messages unread. *)
Theorem unprintable_error_ends_loop m (rest : list message) partial final w w1 e :
  try_block m partial final w = (w1, Raise e) →
  isinstance_Exception e = true →
  can_print_exn e = false →
  loop_body m partial final w = (w1, Raise UnicodeEncodeError)
  ∧ message_loop (m :: rest) partial final w = (w1, Raise UnicodeEncodeError).
Proof.
  intros Htry He Hprint.
  assert (loop_body m partial final w = (w1, Raise UnicodeEncodeError)) as Hbody.
  { rewrite loop_body_outcome. by rewrite Htry, He, Hprint. }
  split; [done|]. simpl. unfold mbind, M_bind. by rewrite Hbody.
Qed.

(** C8. If the send of the flush raises an [Exception], the reset
    ([return None, None]) is not reached. When the handler can print the
    exception, the iteration ends with the locals as they were before
    the flush and the next message is processed from those values;
    otherwise the handler's print raises and the loop ends there. No
    later message sees reset locals. *)
Theorem failed_flush_keeps_state (rest : list message) partial final w w1 e :
  handle_end_of_stream partial final w = (w1, Raise e) →
  isinstance_Exception e = true →
  loop_body (Binary []) partial final w
    = (w1, if can_print_exn e then Ok (partial, final)
           else Raise UnicodeEncodeError)
  ∧ message_loop (Binary [] :: rest) partial final w
    = (if can_print_exn e then message_loop rest partial final w1
       else (w1, Raise UnicodeEncodeError)).
Proof.
  intros Hsend He.
  assert (loop_body (Binary []) partial final w
          = (w1, if can_print_exn e then Ok (partial, final)
                 else Raise UnicodeEncodeError)) as Hbody.
  { rewrite loop_body_outcome. unfold try_block, process_audio_chunk. simpl.
    unfold mbind, M_bind. by rewrite Hsend, He. }
  split; [done|]. simpl. unfold mbind, M_bind. rewrite Hbody.
  by destruct (can_print_exn e).
Qed.

(** *** The effect of an audio frame *)

Lemma truthy_PStr (t : string) :
  truthy (PStr t) = if decide (t = "") then false else true.
Proof.
  simpl. destruct (String.eqb_spec t ""); by case_decide.
Qed.

(** C6, where the code departs from it. For a non-empty frame on which
    the recognizer answers [boundary] and then returns a document whose
    text (under [text] for a boundary, under [partial] otherwise) is a
    non-empty string [t] that the standard output cannot encode, the
    print of the text (line 119 or 129) raises before the text reaches
    the caller: [process_audio_chunk] raises [UnicodeEncodeError], the
    loop's handler logs it, and the iteration ends with both locals as
    they were; the text is not stored. *)
Theorem unprintable_text_not_stored (boundary : bool) (b : list Byte.byte)
    partial final w (r1 r2 : Rec) (doc : string) (d : gmap string pyval)
    (t : string) :
  b ≠ [] →
  AcceptWaveform (w_rec w) (Binary b) = (r1, Ok boundary) →
  (if boundary then Result r1 else PartialResult r1) = (r2, Ok doc) →
  json_loads doc = Ok (PDict d) →
  dict_get d (if boundary then "text" else "partial") (PStr "") = PStr t →
  t ≠ "" →
  encodable t = false →
  process_audio_chunk (Binary b) partial final w
    = (mkWorld r2 (w_websocket w) (w_sent w) (w_fed w ++ [Binary b]),
       Raise UnicodeEncodeError)
  ∧ loop_body (Binary b) partial final w
    = (mkWorld r2 (w_websocket w) (w_sent w) (w_fed w ++ [Binary b]),
       Ok (partial, final)).
Proof.
  intros Hb Hfeed Hdoc Hloads Hget Ht Henc.
  assert (process_audio_chunk (Binary b) partial final w
          = (mkWorld r2 (w_websocket w) (w_sent w) (w_fed w ++ [Binary b]),
             Raise UnicodeEncodeError)) as Hstep.
  { destruct b as [| x b]; [done|].
    unfold_step. rewrite Hfeed.
    destruct boundary; simpl; rewrite Hdoc, Hloads; simpl;
      rewrite Hget, truthy_PStr, can_print_str, Henc; by case_decide. }
  split; [done|].
  rewrite loop_body_outcome. unfold try_block. simpl. rewrite Hstep.
  simpl. by rewrite can_print_UnicodeEncodeError.
Qed.

(** C9. On a non-empty frame for which the recognizer reports a
    boundary, [partial] is not assigned: the iteration ends with the
    locals [(partial, final')] for some [final'], or it ends the loop by
    handing on what [except Exception] does not catch or the error of
    the handler's own print. *)
Theorem boundary_keeps_partial (b : list Byte.byte) partial final w (r1 : Rec) :
  b ≠ [] →
  AcceptWaveform (w_rec w) (Binary b) = (r1, Ok true) →
  (∃ final', (loop_body (Binary b) partial final w).2 = Ok (partial, final'))
  ∨ (∃ e, (loop_body (Binary b) partial final w).2 = Raise e
          ∧ (isinstance_Exception e = false ∨ e = UnicodeEncodeError)).
Proof.
  intros Hb Hfeed. destruct b as [| x b]; [done|].
  rewrite loop_body_outcome. unfold_step. rewrite Hfeed. simpl.
  repeat (case_match; simplify_eq/=); eauto 6.
Qed.

(** *** The wire format *)

Lemma wire_event_text (t : string) : wire_event (json_dumps (text_event (PStr t))).
Proof.
  exists {[ "text" := PStr t ]}, t. split; [done|]. split.
  - apply dom_singleton_L.
  - apply lookup_singleton_eq.
Qed.

Lemma flushed_str partial final :
  none_or_str partial → none_or_str final → ∃ t, flushed partial final = PStr t.
Proof.
  unfold flushed.
  intros [-> | [tp ->]] [-> | [tf ->]]; simpl; repeat case_match; eauto.
Qed.

Lemma get_text_str (key doc : string) (v : pyval) (a : pyval) :
  string_valued key doc →
  json_loads doc = Ok a →
  py_get a key (PStr "") = Ok v →
  none_or_str v.
Proof.
  intros Hkey Hloads Hget.
  destruct a; simplify_eq/=. unfold dict_get.
  destruct (d !! key) as [v |] eqn:Hlook; [|right; eauto].
  right. eauto.
Qed.

Lemma process_audio_chunk_str m partial final w w' partial' final' :
  recognizer_contract →
  none_or_str partial → none_or_str final →
  process_audio_chunk m partial final w = (w', Ok (partial', final')) →
  none_or_str partial' ∧ none_or_str final'.
Proof.
  intros [Htext Hpartial] Hp Hf Hrun.
  unfold process_audio_chunk in Hrun.
  destruct (Nat.eqb (len m) 0).
  { unfold_step. repeat (case_match; simplify_eq/=); split; by left. }
  unfold_step.
  destruct (AcceptWaveform (w_rec w) m) as [r1 [[] | e]]; simpl in *; [| |done].
  - destruct (Result r1) as [r2 [doc | e]] eqn:Hdoc; [|done].
    destruct (json_loads doc) as [a | e] eqn:Hloads; [|done].
    destruct (py_get a "text" (PStr "")) as [v | e] eqn:Hget; [|done].
    repeat (case_match; simplify_eq/=); split; eauto using get_text_str.
  - destruct (PartialResult r1) as [r2 [doc | e]] eqn:Hdoc; [|done].
    destruct (json_loads doc) as [a | e] eqn:Hloads; [|done].
    destruct (py_get a "partial" (PStr "")) as [v | e] eqn:Hget; [|done].
    repeat (case_match; simplify_eq/=); split; eauto using get_text_str.
Qed.

Lemma loop_body_str m partial final w w' partial' final' :
  recognizer_contract →
  none_or_str partial → none_or_str final →
  loop_body m partial final w = (w', Ok (partial', final')) →
  none_or_str partial' ∧ none_or_str final'.
Proof.
  intros Hrec Hp Hf Hrun.
  destruct (loop_body_returns _ _ _ _ _ _ _ Hrun) as [Htry | [-> ->]]; [|done].
  unfold try_block in Htry.
  destruct (negb (validate_message m)).
  - unfold mret, M_ret in Htry. by simplify_eq.
  - eauto using process_audio_chunk_str.
Qed.

Lemma loop_body_wire m partial final w :
  none_or_str partial → none_or_str final →
  ∃ events, w_sent (loop_body m partial final w).1 = w_sent w ++ events
            ∧ Forall wire_event events.
Proof.
  intros Hp Hf. rewrite loop_body_sent.
  destruct (flushed_str _ _ Hp Hf) as [t ->].
  destruct m as [s | [| x b]].
  - exists []. by rewrite app_nil_r.
  - eexists [_]. split; [done|]. repeat constructor. apply wire_event_text.
  - exists []. by rewrite app_nil_r.
Qed.

Lemma message_loop_wire msgs : ∀ partial final w,
  recognizer_contract →
  none_or_str partial → none_or_str final →
  ∃ events, w_sent (message_loop msgs partial final w).1 = w_sent w ++ events
            ∧ Forall wire_event events.
Proof.
  induction msgs as [| m rest IH]; intros partial final w Hrec Hp Hf.
  - exists []. simpl. by rewrite app_nil_r.
  - destruct (loop_body_wire m partial final w Hp Hf) as (ev & Hev & Hwire).
    simpl. unfold mbind, M_bind.
    destruct (loop_body m partial final w) as [w1 [[p1 f1] | e]] eqn:Hbody.
    + destruct (loop_body_str _ _ _ _ _ _ _ Hrec Hp Hf Hbody) as [Hp1 Hf1].
      destruct (IH p1 f1 w1 Hrec Hp1 Hf1) as (ev' & Hev' & Hwire').
      exists (ev ++ ev'). simpl in Hev. rewrite Hev', Hev, app_assoc.
      split; [done|]. by apply Forall_app.
    + by exists ev.
Qed.

(** C7. With a recognizer whose documents carry strings under [text]
    and [partial], every text passed to [send] during the connection is
    the serialisation of an object whose only key is [text] and whose
    value is a string. *)
Theorem wire_format (msgs : list message) w :
  recognizer_contract →
  ∃ events, w_sent (main_message_loop msgs w).1 = w_sent w ++ events
            ∧ Forall wire_event events.
Proof.
  intros Hrec. apply message_loop_wire; [done | by left | by left].
Qed.

End Properties.

(** ** The theorems at work on the scripted connection *)

Section Witnesses.
Import Mock MockServer.

Lemma scripted_contract : recognizer_contract (Rec := rec_state).
Proof.
  assert (∀ key doc, key = "text" ∨ key = "partial" →
                     string_valued key doc) as Hdoc.
  { intros key doc Hkey d v Hloads Hlook. simpl in Hloads.
    unfold loads in Hloads.
    repeat (case_match; simplify_eq/=);
      destruct Hkey as [-> | ->];
      first [ by rewrite lookup_singleton_eq in Hlook; simplify_eq; eauto
            | by rewrite lookup_singleton_ne in Hlook ]. }
  split; intros r r' doc _; apply Hdoc; auto.
Qed.

Lemma flush_fallback_ordering_witness :
  w_sent (process_audio_chunk eos (PStr "hel") (PStr "hello")
            (mkWorld (mkRec (Ok "T=hello") []) 1 [] [audio; audio])).1
  = [json_dumps (text_event (resolved_text (PStr "hel") (PStr "hello")))].
Proof.
  refine (proj1 (flush_fallback_ordering [audio; audio]
                   (connect [interim "hel"; settled "hello"] 1) _ _ _ _)).
  vm_compute. reflexivity.
Defined.

Lemma reset_after_flush_witness :
  PNone = PNone ∧ PNone = PNone ∧
  w_sent (process_audio_chunk eos PNone PNone
            (mkWorld (mkRec (Ok "T=") []) 1 ["T=hel"] [])).1
  = ["T=hel"] ++ [json_dumps (text_event (PStr ""))].
Proof.
  apply (reset_after_flush (PStr "hel") PNone (connect [] 2)).
  vm_compute. reflexivity.
Defined.

Lemma unprintable_error_ends_loop_witness :
  message_loop [audio; eos] (PStr "hel") PNone (connect [failing_unprintable] 1)
  = (mkWorld (mkRec (Ok "P=") []) 1 [] [audio], Raise UnicodeEncodeError).
Proof.
  apply (unprintable_error_ends_loop audio [eos] (PStr "hel") PNone
           (connect [failing_unprintable] 1) _ (PyException surrogate)).
  - vm_compute. reflexivity.
  - reflexivity.
  - vm_compute. reflexivity.
Defined.

Lemma failed_flush_keeps_state_witness :
  message_loop [eos; audio] (PStr "hel") PNone (connect [interim "help"] 0)
  = message_loop [audio] (PStr "hel") PNone
      (mkWorld (mkRec (Ok "T=") [interim "help"]) 0 ["T=hel"] []).
Proof.
  refine (proj2 (failed_flush_keeps_state [audio] (PStr "hel") PNone
                   (connect [interim "help"] 0) _
                   (PyException "ConnectionClosed") _ _)).
  - vm_compute. reflexivity.
  - reflexivity.
Defined.

Lemma unprintable_text_not_stored_witness :
  loop_body audio (PStr "hel") PNone (connect [settled surrogate] 1)
  = (mkWorld (mkRec (Ok ("T=" +:+ surrogate)) []) 1 [] [audio],
     Ok (PStr "hel", PNone)).
Proof.
  refine (proj2 (unprintable_text_not_stored true [Byte.x01; Byte.x02]
                   (PStr "hel") PNone (connect [settled surrogate] 1)
                   (mkRec (Ok ("T=" +:+ surrogate)) [])
                   (mkRec (Ok ("T=" +:+ surrogate)) []) ("T=" +:+ surrogate)
                   {[ "text" := PStr surrogate ]} surrogate _ _ _ _ _ _ _)).
  - done.
  - reflexivity.
  - reflexivity.
  - reflexivity.
  - vm_compute. reflexivity.
  - done.
  - vm_compute. reflexivity.
Defined.

Lemma boundary_keeps_partial_witness :
  (∃ final', (loop_body audio (PStr "hel") PNone
                (connect [settled "hello"] 1)).2 = Ok (PStr "hel", final'))
  ∨ (∃ e, (loop_body audio (PStr "hel") PNone
             (connect [settled "hello"] 1)).2 = Raise e
          ∧ (isinstance_Exception e = false ∨ e = UnicodeEncodeError)).
Proof.
  apply (boundary_keeps_partial [Byte.x01; Byte.x02] (PStr "hel") PNone
           (connect [settled "hello"] 1) (mkRec (Ok "T=hello") [])).
  - done.
  - reflexivity.
Defined.

Lemma wire_format_witness :
  ∃ events,
    w_sent (main_message_loop [audio; eos; Text "x"; eos]
              (connect [interim "hel"] 2)).1 = [] ++ events
    ∧ Forall wire_event events.
Proof.
  apply (wire_format [audio; eos; Text "x"; eos] (connect [interim "hel"] 2)).
  exact scripted_contract.
Defined.

End Witnesses.


(** ** Further properties of the loop and of the handler *)

Section LoopProperties.
Context {Rec WS : Type} `{!KaldiRecognizer Rec} `{!WebSocket WS} `{!Json}
  `{!Stdout}.
Implicit Types (m : message) (partial final : pyval) (w : World Rec WS).

Ltac unfold_calls :=
  unfold loop_body, try_block, try_except, process_audio_chunk,
    handle_end_of_stream, websocket_send, rec_AcceptWaveform, rec_Result,
    rec_PartialResult, print_value, print_exn, print_result,
    print_exn_result, lift, mbind, M_bind, mret, M_ret in *;
  simpl in *.

(** *** Sequences of messages *)

(** Messages that are not [bytes] are noise: removing them from the
    inbound sequence changes neither the locals nor anything in the
    world. *)
Theorem text_messages_are_noise (msgs : list message) : ∀ partial final w,
  message_loop msgs partial final w
  = message_loop (List.filter validate_message msgs) partial final w.
Proof.
  induction msgs as [| m rest IH]; intros partial final w; [done|].
  destruct m as [s | b].
  - rewrite (message_loop_step (Text s) rest partial final w w partial final);
      [apply IH | done].
  - simpl. unfold mbind, M_bind.
    destruct (loop_body (Binary b) partial final w) as [w1 [[p1 f1] | e]];
      [apply IH | done].
Qed.

(** *** What reaches the recognizer and the websocket *)

Lemma loop_body_fed m partial final w :
  w_fed (loop_body m partial final w).1
  = w_fed w ++ (if is_audio m then [m] else []).
Proof.
  destruct m as [s | [| x b]].
  - simpl. by rewrite app_nil_r.
  - unfold_calls. repeat (case_match; simplify_eq/=); by rewrite app_nil_r.
  - unfold_calls. repeat (case_match; simplify_eq/=); done.
Qed.

(** When the loop runs to the end of the messages, the recognizer has
    been given exactly the non-empty [bytes] messages, each once and in
    arrival order; text messages and end-of-stream signals never reach
    it. *)
Theorem audio_fed_once_in_order (msgs : list message) :
  ∀ partial final w w' (locals : pyval * pyval),
  message_loop msgs partial final w = (w', Ok locals) →
  w_fed w' = w_fed w ++ List.filter is_audio msgs.
Proof.
  induction msgs as [| m rest IH]; intros partial final w w' locals Hrun.
  - simpl in Hrun. unfold mret, M_ret in Hrun. simplify_eq.
    simpl. by rewrite app_nil_r.
  - simpl in Hrun. unfold mbind, M_bind in Hrun.
    pose proof (loop_body_fed m partial final w) as Hfed.
    destruct (loop_body m partial final w) as [w1 [[p1 f1] | e]]; [|done].
    rewrite (IH _ _ _ _ _ Hrun). simpl in Hfed. rewrite Hfed. simpl.
    destruct (is_audio m); simpl; by rewrite <- ?app_assoc, ?app_nil_r.
Qed.

(** When the loop runs to the end of the messages, [send] has been
    called once for each end-of-stream signal among them, and for nothing
    else. *)
Theorem one_send_per_end_of_stream (msgs : list message) :
  ∀ partial final w w' (locals : pyval * pyval),
  message_loop msgs partial final w = (w', Ok locals) →
  ∃ events, w_sent w' = w_sent w ++ events
            ∧ length events = length (List.filter is_eos msgs).
Proof.
  induction msgs as [| m rest IH]; intros partial final w w' locals Hrun.
  - simpl in Hrun. unfold mret, M_ret in Hrun. simplify_eq.
    exists []. by rewrite app_nil_r.
  - simpl in Hrun. unfold mbind, M_bind in Hrun.
    pose proof (loop_body_sent m partial final w) as Hsent.
    destruct (loop_body m partial final w) as [w1 [[p1 f1] | e]]; [|done].
    destruct (IH _ _ _ _ _ Hrun) as (events & Hevents & Hlen).
    simpl in Hsent. rewrite Hevents, Hsent.
    destruct m as [s | [| x b]]; simpl.
    + by exists events.
    + exists (json_dumps (text_event (flushed partial final)) :: events).
      rewrite <- app_assoc. simpl. by rewrite Hlen.
    + by exists events.
Qed.

(** *** Streams within a connection *)

(** After a flush whose send returns, the rest of the connection runs as
    a new connection would: from [None] for both locals. *)
Theorem flush_starts_fresh_stream (rest : list message) partial final w w1 :
  handle_end_of_stream partial final w = (w1, Ok ()) →
  message_loop (Binary [] :: rest) partial final w = main_message_loop rest w1.
Proof.
  intros Hsend. apply message_loop_step.
  unfold loop_body, try_except, try_block, process_audio_chunk. simpl.
  unfold mbind, M_bind. by rewrite Hsend.
Qed.

Lemma truthy_is_set (v : pyval) : truthy v = true → is_set v = true.
Proof. by destruct v. Qed.

Lemma loop_body_keeps_set m partial final w w' partial' final' :
  is_eos m = false →
  loop_body m partial final w = (w', Ok (partial', final')) →
  (is_set partial = true → is_set partial' = true)
  ∧ (is_set final = true → is_set final' = true).
Proof.
  intros Hm Hrun. destruct m as [s | [| x b]]; [|done|].
  - unfold_calls. by simplify_eq.
  - unfold_calls.
    repeat (case_match; simplify_eq/=); auto using truthy_is_set.
Qed.

(** Only a flush unsets a local: over messages with no end-of-stream
    signal among them, a local that is set stays set (it may be
    replaced). *)
Theorem audio_never_unsets (msgs : list message) :
  ∀ partial final w w' partial' final',
  Forall (λ m, is_eos m = false) msgs →
  message_loop msgs partial final w = (w', Ok (partial', final')) →
  (is_set partial = true → is_set partial' = true)
  ∧ (is_set final = true → is_set final' = true).
Proof.
  induction msgs as [| m rest IH];
    intros partial final w w' partial' final' Hmsgs Hrun.
  - simpl in Hrun. unfold mret, M_ret in Hrun. by simplify_eq.
  - apply Forall_cons in Hmsgs as [Hm Hrest].
    simpl in Hrun. unfold mbind, M_bind in Hrun.
    destruct (loop_body m partial final w) as [w1 [[p1 f1] | e]] eqn:Hbody;
      [|done].
    destruct (loop_body_keeps_set _ _ _ _ _ _ _ Hm Hbody) as [Hp1 Hf1].
    destruct (IH _ _ _ _ _ _ Hrest Hrun) as [Hp' Hf'].
    split; auto.
Qed.

Lemma loop_body_keeps_final_true m partial final w w' partial' final' :
  is_eos m = false →
  truthy final = true →
  loop_body m partial final w = (w', Ok (partial', final')) →
  truthy final' = true.
Proof.
  intros Hm Hf Hrun. destruct m as [s | [| x b]]; [|done|].
  - unfold_calls. by simplify_eq.
  - unfold_calls. repeat (case_match; simplify_eq/=); done.
Qed.

(** Within a stream a final result wins over every later interim result:
    once [final] holds a true value, then after any messages with no
    end-of-stream signal among them the next flush sends the value of
    [final], not that of [partial]. *)
Theorem final_wins_within_stream (msgs : list message) :
  ∀ partial final w w' partial' final',
  Forall (λ m, is_eos m = false) msgs →
  truthy final = true →
  message_loop msgs partial final w = (w', Ok (partial', final')) →
  truthy final' = true
  ∧ w_sent (loop_body (Binary []) partial' final' w').1
    = w_sent w' ++ [json_dumps (text_event final')].
Proof.
  induction msgs as [| m rest IH];
    intros partial final w w' partial' final' Hmsgs Hf Hrun.
  - simpl in Hrun. unfold mret, M_ret in Hrun. simplify_eq.
    split; [done|]. rewrite loop_body_sent. unfold flushed. by rewrite Hf.
  - apply Forall_cons in Hmsgs as [Hm Hrest].
    simpl in Hrun. unfold mbind, M_bind in Hrun.
    destruct (loop_body m partial final w) as [w1 [[p1 f1] | e]] eqn:Hbody;
      [|done].
    eauto using loop_body_keeps_final_true.
Qed.

(** *** One audio chunk *)

(** On a non-empty frame for which the recognizer reports no boundary,
    [final] is not assigned: the iteration ends with the locals
    [(partial', final)] for some [partial'], or it ends the loop by
    handing on what [except Exception] does not catch or the error of the
    handler's own print. *)
Theorem interim_keeps_final (b : list Byte.byte) partial final w (r1 : Rec) :
  b ≠ [] →
  AcceptWaveform (w_rec w) (Binary b) = (r1, Ok false) →
  (∃ partial', (loop_body (Binary b) partial final w).2 = Ok (partial', final))
  ∨ (∃ e, (loop_body (Binary b) partial final w).2 = Raise e
          ∧ (isinstance_Exception e = false ∨ e = UnicodeEncodeError)).
Proof.
  intros Hb Hfeed. destruct b as [| x b]; [done|].
  rewrite loop_body_outcome. unfold_calls. rewrite Hfeed. simpl.
  repeat (case_match; simplify_eq/=); eauto 6.
Qed.

(** The value found in the recognizer's document ([v], the empty string
    when the key is absent) is handled by its truth value, whatever its
    type. A value that is false ([None], [False], a zero, an empty string,
    list or dict) leaves the locals as they were. A value that is true is
    printed first: when the print returns the value is stored as it is,
    the other local unchanged; when the standard output cannot encode it
    the step raises [UnicodeEncodeError] and stores nothing. *)
Theorem frame_effect_any_value (boundary : bool) (b : list Byte.byte)
    partial final w (r1 r2 : Rec) (doc : string) (d : gmap string pyval)
    (v : pyval) :
  b ≠ [] →
  AcceptWaveform (w_rec w) (Binary b) = (r1, Ok boundary) →
  (if boundary then Result r1 else PartialResult r1) = (r2, Ok doc) →
  json_loads doc = Ok (PDict d) →
  dict_get d (if boundary then "text" else "partial") (PStr "") = v →
  process_audio_chunk (Binary b) partial final w =
    (mkWorld r2 (w_websocket w) (w_sent w) (w_fed w ++ [Binary b]),
     if truthy v
     then (if can_print v
           then Ok (if boundary then (partial, v) else (v, final))
           else Raise UnicodeEncodeError)
     else Ok (partial, final)).
Proof.
  intros Hb Hfeed Hdoc Hloads Hget. destruct b as [| x b]; [done|].
  unfold_calls. rewrite Hfeed.
  destruct boundary; simpl; rewrite Hdoc, Hloads; simpl; rewrite Hget;
    by destruct (truthy v), (can_print v).
Qed.

(** A document that [json.loads] rejects with an [Exception], or that is
    not an object (so that [.get] raises), costs the chunk and nothing
    else: the locals are kept and nothing is sent, but the recognizer is
    not rolled back: it stays in the state its calls left it in and the
    chunk counts as given to it. *)
Theorem bad_document_keeps_locals (boundary : bool) (b : list Byte.byte)
    partial final w (r1 r2 : Rec) (doc : string) :
  b ≠ [] →
  AcceptWaveform (w_rec w) (Binary b) = (r1, Ok boundary) →
  (if boundary then Result r1 else PartialResult r1) = (r2, Ok doc) →
  (∃ e, json_loads doc = Raise e ∧ isinstance_Exception e = true)
  ∨ (∃ v, json_loads doc = Ok v ∧ ∀ d, v ≠ PDict d) →
  loop_body (Binary b) partial final w =
    (mkWorld r2 (w_websocket w) (w_sent w) (w_fed w ++ [Binary b]),
     Ok (partial, final)).
Proof.
  intros Hb Hfeed Hdoc Hbad. destruct b as [| x b]; [done|].
  rewrite loop_body_outcome. unfold_calls. rewrite Hfeed.
  destruct Hbad as [(e & Hloads & He) | (v & Hloads & Hv)].
  - pose proof (encodable_ascii _ (json_loads_error_ascii _ _ Hloads)) as Hprint.
    unfold can_print_exn.
    destruct boundary; simpl; rewrite Hdoc, Hloads; simpl;
      by rewrite He, Hprint.
  - pose proof (encodable_ascii "AttributeError" eq_refl) as Hprint.
    unfold can_print_exn.
    destruct boundary; simpl; rewrite Hdoc, Hloads; simpl;
      destruct v; simpl; rewrite ?Hprint; try done; by destruct (Hv d).
Qed.

(** *** What is sent, without any assumption on the recognizer *)

Lemma flushed_true_or_empty partial final :
  flushed partial final = PStr "" ∨ truthy (flushed partial final) = true.
Proof.
  unfold flushed.
  destruct (truthy final) eqn:Hf; [by right|].
  destruct (truthy partial) eqn:Hp; [by right | by left].
Qed.

(** Whatever the recognizer returns and from whatever locals the loop
    starts, every text passed to [send] is the serialisation of
    [{"text": v}] where [v] is true in Python's sense or is the empty
    string: [None], [False], zeros and empty containers are never sent. *)
Theorem sent_text_true_or_empty (msgs : list message) : ∀ partial final w,
  ∃ events, w_sent (message_loop msgs partial final w).1 = w_sent w ++ events
            ∧ Forall text_event_of_true_or_empty events.
Proof.
  induction msgs as [| m rest IH]; intros partial final w.
  - exists []. simpl. by rewrite app_nil_r.
  - simpl. unfold mbind, M_bind.
    pose proof (loop_body_sent m partial final w) as Hsent.
    assert (∃ ev, w_sent (loop_body m partial final w).1 = w_sent w ++ ev
                  ∧ Forall text_event_of_true_or_empty ev) as (ev & Hev & Hok).
    { rewrite Hsent. destruct m as [s | [| x b]].
      - exists []. by rewrite app_nil_r.
      - eexists [_]. split; [done|]. repeat constructor.
        eexists. split; [done|]. apply flushed_true_or_empty.
      - exists []. by rewrite app_nil_r. }
    destruct (loop_body m partial final w) as [w1 [[p1 f1] | e]].
    + destruct (IH p1 f1 w1) as (ev' & Hev' & Hok').
      exists (ev ++ ev'). simpl in Hev. rewrite Hev', Hev, app_assoc.
      split; [done|]. by apply Forall_app.
    + by exists ev.
Qed.

(** The locals of the loop never hold a false value other than [None]:
    after any messages each of [partial] and [final] is [None] or is true
    in Python's sense (so never an empty string). *)
Theorem locals_none_or_true (msgs : list message) w w' partial final :
  main_message_loop msgs w = (w', Ok (partial, final)) →
  tracked partial ∧ tracked final.
Proof.
  intros Hloop.
  exact (message_loop_tracked _ _ _ _ _ _ _ tracked_None tracked_None Hloop).
Qed.

(** *** How the loop ends *)

(** What [except Exception] does not catch ends the loop at once: the
    messages that follow are not processed. *)
Theorem base_exception_stops_loop m (rest : list message) partial final w w1 e :
  try_block m partial final w = (w1, Raise e) →
  isinstance_Exception e = false →
  message_loop (m :: rest) partial final w = (w1, Raise e).
Proof.
  intros Htry He. simpl.
  unfold mbind, M_bind, loop_body, try_except. by rewrite Htry, He.
Qed.

(** An [Exception] that the handler can print costs the message and
    nothing else: the iteration ends with the locals as they were before
    the message, and the loop goes on with the remaining messages from
    those values. *)
Theorem logged_error_keeps_loop m (rest : list message) partial final w w1 e :
  try_block m partial final w = (w1, Raise e) →
  isinstance_Exception e = true →
  can_print_exn e = true →
  loop_body m partial final w = (w1, Ok (partial, final))
  ∧ message_loop (m :: rest) partial final w
    = message_loop rest partial final w1.
Proof.
  intros Htry He Hprint.
  assert (loop_body m partial final w = (w1, Ok (partial, final))) as Hbody.
  { rewrite loop_body_outcome. by rewrite Htry, He, Hprint. }
  split; [done|]. by apply message_loop_step.
Qed.

(** *** The prints of the flush *)

Lemma printed_None : printed PNone.
Proof. by left. Qed.

Lemma process_audio_chunk_printed m partial final w w' partial' final' :
  printed partial → printed final →
  process_audio_chunk m partial final w = (w', Ok (partial', final')) →
  printed partial' ∧ printed final'.
Proof.
  intros Hp Hf Hrun. unfold_calls.
  repeat (case_match; simplify_eq/=);
    split; first [done | apply printed_None | by right].
Qed.

Lemma loop_body_printed m partial final w w' partial' final' :
  printed partial → printed final →
  loop_body m partial final w = (w', Ok (partial', final')) →
  printed partial' ∧ printed final'.
Proof.
  intros Hp Hf Hrun.
  destruct (loop_body_returns _ _ _ _ _ _ _ Hrun) as [Htry | [-> ->]]; [|done].
  unfold try_block in Htry.
  destruct (negb (validate_message m)).
  - unfold mret, M_ret in Htry. by simplify_eq.
  - eauto using process_audio_chunk_printed.
Qed.

Lemma message_loop_printed msgs : ∀ partial final w w' partial' final',
  printed partial → printed final →
  message_loop msgs partial final w = (w', Ok (partial', final')) →
  printed partial' ∧ printed final'.
Proof.
  induction msgs as [| m rest IH];
    intros partial final w w' partial' final' Hp Hf Hrun.
  - simpl in Hrun. unfold mret, M_ret in Hrun. by simplify_eq.
  - simpl in Hrun. unfold mbind, M_bind in Hrun.
    destruct (loop_body m partial final w) as [w1 [[p1 f1] | e]] eqn:Hbody;
      [|done].
    destruct (loop_body_printed _ _ _ _ _ _ _ Hp Hf Hbody) as [Hp1 Hf1].
    eauto.
Qed.

(** The prints of the flush cannot raise in the loop: each local is
    [None] or a value whose print has returned, on line 119 or 129, so
    for the locals the loop holds after any messages the flush with its
    prints of [final] and [partial] (lines 74 and 79) written out does
    what [handle_end_of_stream] does. *)
Theorem flush_prints_in_the_loop (prior : list message) w w' partial final :
  main_message_loop prior w = (w', Ok (partial, final)) →
  (printed partial ∧ printed final)
  ∧ handle_end_of_stream_with_prints partial final w'
    = handle_end_of_stream partial final w'.
Proof.
  intros Hloop.
  destruct (message_loop_printed _ _ _ _ _ _ _ printed_None printed_None Hloop)
    as [Hp Hf].
  split; [done|].
  unfold handle_end_of_stream_with_prints, handle_end_of_stream.
  unfold mbind, M_bind, print_value, lift, print_result.
  destruct (truthy final) eqn:Htf.
  - destruct Hf as [-> | ->]; done.
  - destruct (truthy partial) eqn:Htp; [|done].
    destruct Hp as [-> | ->]; done.
Qed.

End LoopProperties.

Section HandlerProperties.
Context {Model Rec WS : Type} `{!VoskModel Model Rec}
  `{!KaldiRecognizer Rec} `{!WebSocket WS} `{!Json} `{!Stdout}.

(** [main_message_loop] raises only what the closing of the connection
    raises, what [except Exception] does not catch, or the error of the
    handler's own print: no other [Exception] from the processing of a
    message leaves it. *)
Theorem loop_raises_close_or_base_exception (msgs : list message)
    (closed : result ()) (w w' : World Rec WS) (e : exn) :
  main_message_loop_until_close msgs closed w = (w', Raise e) →
  closed = Raise e ∨ isinstance_Exception e = false ∨ e = UnicodeEncodeError.
Proof.
  unfold main_message_loop_until_close, main_message_loop. intros Hrun.
  destruct (message_loop msgs PNone PNone w) as [w1 [locals | e1]] eqn:Hloop.
  - left. by simplify_eq.
  - right. simplify_eq. eauto using message_loop_raise.
Qed.

(** An [Exception] leaves [recognize] only as the error of a print of
    its own handler (line 186): whatever [recognize] raises is not an
    [Exception], or is [UnicodeEncodeError]. With a standard output that
    can print every exception, [recognize] raises no [Exception] at
    all. *)
Theorem recognize_raises_no_exception (model : Model) (websocket : WS)
    (path : pyval) (msgs : list message) (closed : result ()) (e : exn) :
  (recognize model websocket path msgs closed).2 = Raise e →
  (isinstance_Exception e = false ∨ e = UnicodeEncodeError)
  ∧ ((∀ e', can_print_exn e' = true) → isinstance_Exception e = false).
Proof.
  assert (∀ r, log_and_drop r = Raise e →
               (isinstance_Exception e = false ∨ e = UnicodeEncodeError)
               ∧ ((∀ e', can_print_exn e' = true) →
                  isinstance_Exception e = false)) as Hlog.
  { intros [[] | e0]; simpl; [done|].
    destruct (isinstance_Exception e0) eqn:He0.
    - unfold print_exn_result.
      destruct (can_print_exn e0) eqn:Hprint; [done|].
      intros [= <-]. split; [by right|].
      intros Hall. by rewrite Hall in Hprint.
    - intros [= <-]. by split; [left|]. }
  unfold recognize.
  destruct (initialize_connection model path) as [rec | e0].
  - destruct (main_message_loop_until_close msgs closed _) as [w1 r].
    apply Hlog.
  - apply Hlog.
Qed.

End HandlerProperties.

(** ** The further properties at work on the scripted connection *)

Section MoreWitnesses.
Import Mock MockServer.

Lemma audio_fed_once_in_order_witness :
  w_fed (message_loop [audio; Text "x"; eos; audio] PNone PNone
           (connect [interim "hel"; settled "hello"] 1)).1
  = [] ++ List.filter is_audio [audio; Text "x"; eos; audio].
Proof.
  eapply (audio_fed_once_in_order [audio; Text "x"; eos; audio] PNone PNone
            (connect [interim "hel"; settled "hello"] 1)).
  reflexivity.
Defined.

Lemma one_send_per_end_of_stream_witness :
  ∃ events,
    w_sent (message_loop [audio; eos; Text "x"; eos] PNone PNone
              (connect [interim "hel"] 2)).1 = [] ++ events
    ∧ length events = length (List.filter is_eos [audio; eos; Text "x"; eos]).
Proof.
  eapply (one_send_per_end_of_stream [audio; eos; Text "x"; eos] PNone PNone
            (connect [interim "hel"] 2)).
  reflexivity.
Defined.

Lemma flush_starts_fresh_stream_witness :
  message_loop [eos; audio] (PStr "hel") PNone (connect [interim "x"] 1)
  = main_message_loop [audio]
      (mkWorld (mkRec (Ok "T=") [interim "x"]) 0 ["T=hel"] []).
Proof.
  apply (flush_starts_fresh_stream [audio] (PStr "hel") PNone
           (connect [interim "x"] 1)).
  reflexivity.
Defined.

Lemma audio_never_unsets_witness :
  (is_set (PStr "hel") = true → is_set (PStr "help") = true)
  ∧ (is_set PNone = true → is_set (PStr "done") = true).
Proof.
  eapply (audio_never_unsets [audio; Text "x"; audio] (PStr "hel") PNone
            (connect [interim "help"; settled "done"] 1)).
  - repeat constructor.
  - reflexivity.
Defined.

Lemma final_wins_within_stream_witness :
  truthy (PStr "done") = true
  ∧ w_sent (loop_body eos (PStr "more") (PStr "done")
              (mkWorld (mkRec (Ok "P=more") []) 1 [] [audio])).1
    = [] ++ [json_dumps (text_event (PStr "done"))].
Proof.
  apply (final_wins_within_stream [audio] PNone (PStr "done")
           (connect [interim "more"] 1)).
  - repeat constructor.
  - reflexivity.
  - reflexivity.
Defined.

Lemma interim_keeps_final_witness :
  (∃ partial', (loop_body audio PNone (PStr "done")
                  (connect [interim "more"] 1)).2 = Ok (partial', PStr "done"))
  ∨ (∃ e, (loop_body audio PNone (PStr "done")
             (connect [interim "more"] 1)).2 = Raise e
          ∧ (isinstance_Exception e = false ∨ e = UnicodeEncodeError)).
Proof.
  apply (interim_keeps_final [Byte.x01; Byte.x02] PNone (PStr "done")
           (connect [interim "more"] 1) (mkRec (Ok "P=more") [])).
  - done.
  - reflexivity.
Defined.

Lemma frame_effect_any_value_witness :
  process_audio_chunk audio (PStr "hel") PNone (connect [interim ""] 1)
  = (mkWorld (mkRec (Ok "P=") []) 1 [] [audio], Ok (PStr "hel", PNone)).
Proof.
  refine (frame_effect_any_value false [Byte.x01; Byte.x02] (PStr "hel") PNone
            (connect [interim ""] 1)
            (mkRec (Ok "P=") []) (mkRec (Ok "P=") []) "P="
            {[ "partial" := PStr "" ]} (PStr "") _ _ _ _ _).
  - done.
  - reflexivity.
  - reflexivity.
  - reflexivity.
  - vm_compute. reflexivity.
Defined.

Lemma bad_document_keeps_locals_witness :
  loop_body audio (PStr "hel") PNone (connect [garbled] 1)
  = (mkWorld (mkRec (Ok "[]") []) 1 [] [audio], Ok (PStr "hel", PNone)).
Proof.
  apply (bad_document_keeps_locals true [Byte.x01; Byte.x02] (PStr "hel") PNone
           (connect [garbled] 1) (mkRec (Ok "[]") []) (mkRec (Ok "[]") []) "[]").
  - done.
  - reflexivity.
  - reflexivity.
  - left. exists (PyException "JSONDecodeError"). split; reflexivity.
Defined.

Lemma locals_none_or_true_witness :
  tracked (PStr "hel") ∧ tracked PNone.
Proof.
  apply (locals_none_or_true [audio; audio] (connect [interim "hel"; settled ""] 1)
           (mkWorld (mkRec (Ok "T=") []) 1 [] [audio; audio])).
  vm_compute. reflexivity.
Defined.

Lemma base_exception_stops_loop_witness :
  message_loop [audio; eos] (PStr "hel") PNone (connect [cancelled] 1)
  = (mkWorld (mkRec (Ok "P=") []) 1 [] [audio],
     Raise (PyBaseException "CancelledError")).
Proof.
  apply (base_exception_stops_loop audio [eos] (PStr "hel") PNone
           (connect [cancelled] 1)).
  - vm_compute. reflexivity.
  - reflexivity.
Defined.

Lemma loop_raises_close_or_base_exception_witness :
  Raise (PyException "ConnectionClosedError")
  = Raise (A := ()) (PyException "ConnectionClosedError")
  ∨ isinstance_Exception (PyException "ConnectionClosedError") = false
  ∨ PyException "ConnectionClosedError" = UnicodeEncodeError.
Proof.
  eapply (loop_raises_close_or_base_exception [audio]
            (Raise (PyException "ConnectionClosedError"))
            (connect [interim "hel"] 1)).
  reflexivity.
Defined.

Lemma recognize_raises_no_exception_witness :
  (isinstance_Exception (PyBaseException "CancelledError") = false
   ∨ PyBaseException "CancelledError" = UnicodeEncodeError)
  ∧ ((∀ e', can_print_exn e' = true) →
     isinstance_Exception (PyBaseException "CancelledError") = false).
Proof.
  apply (recognize_raises_no_exception (Some [cancelled]) 1 PNone [audio; eos]
           (Ok ())).
  vm_compute. reflexivity.
Defined.

Lemma logged_error_keeps_loop_witness :
  message_loop [audio; eos] (PStr "hel") PNone (connect [failing] 1)
  = message_loop [eos] (PStr "hel") PNone
      (mkWorld (mkRec (Ok "P=") []) 1 [] [audio]).
Proof.
  apply (logged_error_keeps_loop audio [eos] (PStr "hel") PNone
           (connect [failing] 1) _ (PyException "Exception")).
  - vm_compute. reflexivity.
  - reflexivity.
  - vm_compute. reflexivity.
Defined.

Lemma flush_prints_in_the_loop_witness :
  (printed PNone ∧ printed (PStr "hello"))
  ∧ handle_end_of_stream_with_prints PNone (PStr "hello")
      (mkWorld (mkRec (Ok "T=hello") []) 1 [] [audio; audio])
    = handle_end_of_stream PNone (PStr "hello")
        (mkWorld (mkRec (Ok "T=hello") []) 1 [] [audio; audio]).
Proof.
  apply (flush_prints_in_the_loop [audio; audio]
           (connect [settled surrogate; settled "hello"] 1)).
  vm_compute. reflexivity.
Defined.

End MoreWitnesses.
